(** * NullSafety: null-safe, undefined-safe chained access

    A verification development for [src/null-safety.ts].

    The class [NullSafety<TSource>] has one private field, [source], of type
    [TSource | null | undefined].  Instances are heap objects: [next] and
    [nextWithAny] build a new instance with [new NullSafety(result)], and the
    constructor assigns the field.  Getters are arbitrary functions of the
    host program: they may have effects and they may throw.

    The embedding follows the run-time behaviour of the compiled class:
    - a value is [undefined], [null], or a value that is neither;
    - the instances live in a store that maps a location to the content of
      the [source] field of the instance allocated there;
    - methods are computations in a state-and-exception monad over that store
      and the state of the host program;
    - every invocation of a getter is recorded, with its argument, in a
      trace, which plays the role of a call counter. *)

From stdpp Require Import gmap strings list.

#[local] Set Warnings "-register-all".

(** ** Values *)

(** A value of type [T | null | undefined], where [V] collects the values
    that are neither [null] nor [undefined]. *)
Inductive nullable (V : Type) : Type :=
  | Undefined
  | Null
  | Val (v : V).
Arguments Undefined {V}.
Arguments Null {V}.
Arguments Val {V} v.

(** [x === undefined] *)
Definition is_undefined {V} (x : nullable V) : bool :=
  match x with Undefined => true | _ => false end.

(** [x === null] *)
Definition is_null {V} (x : nullable V) : bool :=
  match x with Null => true | _ => false end.

(** An optional parameter that the caller left out is bound to [undefined]. *)
Definition param {V} (arg : option (nullable V)) : nullable V :=
  default Undefined arg.

(** Instances are identified by their location in the store. *)
Abbreviation loc := positive.

(** How a call ends: it returns, it throws a value, or it leaves the model
    (a method applied to a location that holds no instance, or host
    behaviour that is not described). *)
Inductive outcome (V A : Type) : Type :=
  | Return (a : A)
  | Throw (exn : nullable V)
  | Stuck.
Arguments Return {V A} a.
Arguments Throw {V A} exn.
Arguments Stuck {V A}.

(** [type Getter<TSource, TResult> = (source: TSource) => TResult]:
    a function of the host program, acting on the host state [W].  The field
    [source] is private, so a getter has no access to the store of
    instances. *)
Definition Getter (V W : Type) : Type :=
  nullable V → W → outcome V (nullable V) * W.

Section Semantics.
Context {V W : Type}.

(** [objs] gives the [source] field of every allocated instance;
    [world] is the state of the host program; [trace] lists, oldest
    first, the arguments of the getter invocations made so far. *)
Record state : Type := State {
  objs : gmap loc (nullable V);
  world : W;
  trace : list (nullable V)
}.

Definition M (A : Type) : Type := state → outcome V A * state.

Definition ret {A} (a : A) : M A := fun σ => (Return a, σ).

Definition bind {A B} (m : M A) (k : A → M B) : M B :=
  fun σ =>
    match m σ with
    | (Return a, σ') => k a σ'
    | (Throw e, σ') => (Throw e, σ')
    | (Stuck, σ') => (Stuck, σ')
    end.

(** [getter(x)] *)
Definition call (getter : Getter V W) (x : nullable V) : M (nullable V) :=
  fun σ =>
    let '(r, w) := getter x (world σ) in
    (r, State (objs σ) w (trace σ ++ [x])).

(** [this.source] *)
Definition get_source (this : loc) : M (nullable V) :=
  fun σ =>
    match objs σ !! this with
    | Some x => (Return x, σ)
    | None => (Stuck, σ)
    end.

(** [this.source = x] *)
Definition set_source (this : loc) (x : nullable V) : M unit :=
  fun σ =>
    match objs σ !! this with
    | Some _ => (Return tt, State (<[this := x]> (objs σ)) (world σ) (trace σ))
    | None => (Stuck, σ)
    end.

(** Allocation of an instance; the field is not yet assigned. *)
Definition alloc : M loc :=
  fun σ =>
    let l := fresh (dom (objs σ)) in
    (Return l, State (<[l := Undefined]> (objs σ)) (world σ) (trace σ)).
End Semantics.

Arguments state : clear implicits.
Arguments M : clear implicits.

Declare Scope js_scope.
Delimit Scope js_scope with js.
Notation "x <- m ;; k" := (bind m (fun x => k))
  (at level 100, m at next level, right associativity) : js_scope.
Notation "m ;;; k" := (bind m (fun _ => k))
  (at level 100, right associativity) : js_scope.
Open Scope js_scope.

(** ** The class *)

Section NullSafety.
Context {V W : Type}.

(** [public constructor(source) { this.source = source; }] *)
Definition NullSafety_constructor (this : loc) (source : nullable V)
    : M V W unit :=
  set_source this source.

(** [new NullSafety<T>(source)] *)
Definition new_NullSafety (source : nullable V) : M V W loc :=
  this <- alloc ;;
  NullSafety_constructor this source ;;;
  ret this.

(** [public static start<TSource>(source)] *)
Definition start (source : nullable V) : M V W loc :=
  new_NullSafety source.

(** [this.source === undefined || this.source === null] *)
Definition source_is_nullish (this : loc) : M V W bool :=
  s <- get_source this ;;
  if is_undefined s then ret true
  else s' <- get_source this ;; ret (is_null s').

(** [(result === undefined || result === null) && altResult !== undefined],
    on local variables *)
Definition use_alt (result altResult : nullable V) : bool :=
  (is_undefined result || is_null result) && negb (is_undefined altResult).

(** [public next<TResult>(getter, altResult?)] *)
Definition next (this : loc) (getter : Getter V W)
    (altResult : option (nullable V)) : M V W loc :=
  let altResult := param altResult in
  c <- source_is_nullish this ;;
  result <- (if c then get_source this
             else s <- get_source this ;; call getter s) ;;
  let result := if use_alt result altResult then altResult else result in
  new_NullSafety result.

(** [public nextWithAny<TResult>(getter, altResult?)] *)
Definition nextWithAny (this : loc) (getter : Getter V W)
    (altResult : option (nullable V)) : M V W loc :=
  let altResult := param altResult in
  result <- (s <- get_source this ;; call getter s) ;;
  let result := if use_alt result altResult then altResult else result in
  new_NullSafety result.

(** [public result()] *)
Definition result (this : loc) : M V W (nullable V) :=
  get_source this.

(** [public resultAlty(altResult)] *)
Definition resultAlty (this : loc) (altResult : nullable V)
    : M V W (nullable V) :=
  s <- get_source this ;;
  if negb (is_null s) then
    s' <- get_source this ;;
    if negb (is_undefined s') then get_source this else ret altResult
  else ret altResult.
End NullSafety.

(** ** Notions used by the statements *)

(** [x] is [undefined] or [null]. *)
Definition absent {V} (x : nullable V) : bool :=
  is_undefined x || is_null x.

(** [x] has type [T | null | undefined], for a type [T] given as a
    predicate on the values that are neither [null] nor [undefined]. *)
Definition has_type {V} (T : V → Prop) (x : nullable V) : Prop :=
  match x with
  | Val v => T v
  | _ => True
  end.

(** What one step of [next] and [nextWithAny] stores in the new instance,
    given the value [r] obtained from the getter or carried forward. *)
Definition next_value {V} (r : nullable V) (alt : option (nullable V))
    : nullable V :=
  if use_alt r (param alt) then param alt else r.

(** The state after [new NullSafety(x)]. *)
Definition allocated {V W} (x : nullable V) (σ : state V W) : state V W :=
  State (<[fresh (dom (objs σ)) := x]> (objs σ)) (world σ) (trace σ).

(** The state after a computation, whatever its outcome. *)
Definition exec {V W A} (m : M V W A) (σ : state V W) : state V W :=
  snd (m σ).

(** A computation that leaves every allocated instance as it is: the store
    after it contains the store before it. *)
Definition extends {V W A} (c : M V W A) : Prop :=
  ∀ σ, objs σ ⊆ objs (exec c σ).

(** [n] successive calls of [this.result()], collecting what they return. *)
Fixpoint results {V W} (n : nat) (this : loc) : M V W (list (nullable V)) :=
  match n with
  | O => ret []
  | S n' =>
      x <- result this ;;
      xs <- results n' this ;;
      ret (x :: xs)
  end.

(** A call of one of the public operations of the class. *)
Inductive op (V W : Type) : Type :=
  | OpStart (source : nullable V)
  | OpNext (this : loc) (getter : Getter V W) (altResult : option (nullable V))
  | OpNextWithAny (this : loc) (getter : Getter V W)
      (altResult : option (nullable V))
  | OpResult (this : loc)
  | OpResultAlty (this : loc) (altResult : nullable V).
Arguments OpStart {V W} source.
Arguments OpNext {V W} this getter altResult.
Arguments OpNextWithAny {V W} this getter altResult.
Arguments OpResult {V W} this.
Arguments OpResultAlty {V W} this altResult.

Definition exec_op {V W} (o : op V W) (σ : state V W) : state V W :=
  match o with
  | OpStart source => exec (start source) σ
  | OpNext this getter altResult => exec (next this getter altResult) σ
  | OpNextWithAny this getter altResult =>
      exec (nextWithAny this getter altResult) σ
  | OpResult this => exec (result this) σ
  | OpResultAlty this altResult => exec (resultAlty this altResult) σ
  end.

Definition exec_ops {V W} (os : list (op V W)) (σ : state V W) : state V W :=
  foldl (fun σ o => exec_op o σ) σ os.

(** ** A small universe of values for the scenarios *)

(** Strings and object literals. *)
Inductive jsval : Type :=
  | JString (s : string)
  | JObject (props : list (string * nullable jsval)).

Fixpoint get_prop (name : string) (props : list (string * nullable jsval))
    : nullable jsval :=
  match props with
  | [] => Undefined
  | (k, x) :: props' => if String.eqb k name then x else get_prop name props'
  end.

Definition TypeError : nullable jsval :=
  Val (JObject [("name"%string, Val (JString "TypeError"))]).

(** [o => o.name], for a pure host ([W] is left untouched): reading a
    property of [null] or [undefined] throws, a property that an object
    literal does not have reads as [undefined]; properties of strings are
    outside the model. *)
Definition member {W} (name : string) : Getter jsval W :=
  fun o w =>
    match o with
    | Undefined | Null => (Throw TypeError, w)
    | Val (JObject props) => (Return (get_prop name props), w)
    | Val (JString _) => (Stuck, w)
    end.

(** The store before any instance is allocated. *)
Definition init {V W} (w : W) : state V W := State ∅ w [].

(** [NullSafety.start({a: null}).next(o => o.a).result()] *)
Definition scenario_first_step {W} : M jsval W (nullable jsval) :=
  c0 <- start (Val (JObject [("a"%string, Null)])) ;;
  c1 <- next c0 (member "a") None ;;
  result c1.

(** [NullSafety.start({a: null}).next(o => o.a)
       .next(o => o.missingField, 'fallback').result()] *)
Definition scenario_fallback {W} : M jsval W (nullable jsval) :=
  c0 <- start (Val (JObject [("a"%string, Null)])) ;;
  c1 <- next c0 (member "a") None ;;
  c2 <- next c1 (member "missingField") (Some (Val (JString "fallback"))) ;;
  result c2.

(** ** Chains of calls *)

(** [c.next(g1, a1).next(g2, a2)...]: a fluent chain of [next] calls, as in
    the example of the class documentation; the steps are applied from left
    to right, each on the instance returned by the previous one, and the
    chain returns the last instance. *)
Fixpoint chain {V W} (this : loc)
    (steps : list (Getter V W * option (nullable V))) : M V W loc :=
  match steps with
  | [] => ret this
  | (getter, altResult) :: steps' =>
      that <- next this getter altResult ;;
      chain that steps'
  end.

(** [x => f(x)], for a function [f] without effects. *)
Definition pure_getter {V W} (f : nullable V → nullable V) : Getter V W :=
  fun x w => (Return (f x), w).

(** [o => o] *)
Definition identity {V W} : Getter V W :=
  fun o w => (Return o, w).

(** [x => { const r = f(x);
            return r === undefined || r === null ? r : g(r); }] *)
Definition and_then {V W} (f g : Getter V W) : Getter V W :=
  fun x w =>
    match f x w with
    | (Return r, w') =>
        if is_undefined r || is_null r then (Return r, w') else g r w'
    | (o, w') => (o, w')
    end.

(** The steps of a chain whose getters have no effects. *)
Definition pure_steps {V W}
    (steps : list ((nullable V → nullable V) * option (nullable V)))
    : list (Getter V W * option (nullable V)) :=
  map (fun s => (pure_getter s.1, s.2)) steps.

(** Reference for a chain without effects, on values alone (no store, no
    instance): a step keeps [undefined] and [null], applies [f] to a value,
    and replaces an [undefined] or [null] outcome by an [altResult] that is
    not [undefined]. *)
Definition step_value {V} (f : nullable V → nullable V)
    (alt : option (nullable V)) (x : nullable V) : nullable V :=
  let r := match x with
           | Val _ => f x
           | _ => x
           end in
  match r, alt with
  | Val _, _ => r
  | _, (None | Some Undefined) => r
  | _, Some a => a
  end.

Fixpoint chain_value {V}
    (steps : list ((nullable V → nullable V) * option (nullable V)))
    (x : nullable V) : nullable V :=
  match steps with
  | [] => x
  | (f, alt) :: steps' => chain_value steps' (step_value f alt x)
  end.

(** * Properties *)

(** ** How the operations run *)

Section Run.
Context {V W : Type}.
Implicit Types (σ : state V W) (this that : loc) (g : Getter V W).
Implicit Types (m r x : nullable V) (alt : option (nullable V)).

Lemma fresh_loc_unused σ : objs σ !! fresh (dom (objs σ)) = None.
Proof. apply not_elem_of_dom, is_fresh. Qed.

Lemma get_source_run σ this m :
  objs σ !! this = Some m → get_source this σ = (Return m, σ).
Proof. intros H. unfold get_source. by rewrite H. Qed.

Lemma new_NullSafety_run x σ :
  new_NullSafety x σ = (Return (fresh (dom (objs σ))), allocated x σ).
Proof.
  unfold new_NullSafety, NullSafety_constructor, bind, alloc, set_source, ret.
  cbn. rewrite lookup_insert_eq. cbn. unfold allocated.
  by rewrite insert_insert_eq.
Qed.

Lemma source_is_nullish_run σ this m :
  objs σ !! this = Some m →
  source_is_nullish this σ = (Return (absent m), σ).
Proof.
  intros H. unfold source_is_nullish, bind.
  rewrite (get_source_run _ _ _ H).
  destruct m; cbn; by rewrite ?(get_source_run _ _ _ H).
Qed.

(** [next] on an instance that holds [undefined] or [null]. *)
Lemma next_run_absent σ this m g alt :
  objs σ !! this = Some m → absent m = true →
  next this g alt σ = new_NullSafety (next_value m alt) σ.
Proof.
  intros H Ha. unfold next, bind.
  rewrite (source_is_nullish_run _ _ _ H), Ha.
  by rewrite (get_source_run _ _ _ H).
Qed.

(** [next] on an instance that holds a value. *)
Lemma next_run_present σ this m g alt :
  objs σ !! this = Some m → absent m = false →
  next this g alt σ =
  (r <- call g m ;; new_NullSafety (next_value r alt)) σ.
Proof.
  intros H Ha. unfold next, bind at 1 2.
  rewrite (source_is_nullish_run _ _ _ H), Ha.
  unfold bind. by rewrite (get_source_run _ _ _ H).
Qed.

Lemma nextWithAny_run σ this m g alt :
  objs σ !! this = Some m →
  nextWithAny this g alt σ =
  (r <- call g m ;; new_NullSafety (next_value r alt)) σ.
Proof.
  intros H. unfold nextWithAny, bind.
  by rewrite (get_source_run _ _ _ H).
Qed.

Lemma call_run σ g m (o : outcome V (nullable V)) w :
  g m (world σ) = (o, w) →
  call g m σ = (o, State (objs σ) w (trace σ ++ [m])).
Proof. intros H. unfold call. by rewrite H. Qed.

Lemma resultAlty_run σ this m x :
  objs σ !! this = Some m →
  resultAlty this x σ = (Return (if absent m then x else m), σ).
Proof.
  intros H. unfold resultAlty, bind.
  destruct m; repeat (rewrite (get_source_run _ _ _ H); cbn); done.
Qed.

Lemma allocated_lookup_new x σ :
  objs (allocated x σ) !! fresh (dom (objs σ)) = Some x.
Proof. apply lookup_insert_eq. Qed.

Lemma allocated_lookup_old x σ this m :
  objs σ !! this = Some m → objs (allocated x σ) !! this = Some m.
Proof.
  intros H. cbn. rewrite lookup_insert_ne; [done|].
  intros E. by rewrite <- E, fresh_loc_unused in H.
Qed.

Lemma result_allocated x σ :
  result (fresh (dom (objs σ))) (allocated x σ) = (Return x, allocated x σ).
Proof. apply get_source_run, allocated_lookup_new. Qed.

(** The three cases of the substitution of [altResult]. *)
Lemma next_value_present r alt : absent r = false → next_value r alt = r.
Proof.
  intros Hr. unfold next_value, use_alt. fold (absent r). by rewrite Hr.
Qed.

Lemma next_value_alt r x :
  absent r = true → is_undefined x = false → next_value r (Some x) = x.
Proof.
  intros Hr Hx. unfold next_value, use_alt. fold (absent r).
  cbn. by rewrite Hr, Hx.
Qed.

Lemma next_value_no_alt r alt : param alt = Undefined → next_value r alt = r.
Proof.
  intros Ha. unfold next_value, use_alt. rewrite Ha. cbn.
  by rewrite andb_false_r.
Qed.

(** The getter is invoked by [nextWithAny] whatever the instance holds. *)
Lemma nextWithAny_exec σ this m g alt :
  objs σ !! this = Some m →
  trace (exec (nextWithAny this g alt) σ) = trace σ ++ [m] ∧
  world (exec (nextWithAny this g alt) σ) = snd (g m (world σ)).
Proof.
  intros Hthis. unfold exec.
  rewrite (nextWithAny_run _ _ _ _ _ Hthis). unfold bind.
  destruct (g m (world σ)) as [o w0] eqn:Hg.
  rewrite (call_run _ _ _ _ _ Hg).
  by destruct o; rewrite ?new_NullSafety_run.
Qed.
End Run.

(** ** Operations only add instances to the store *)

Section Extends.
Context {V W : Type}.
Implicit Types (σ : state V W) (this that : loc) (g : Getter V W).

Lemma extends_ret {A} (a : A) : @extends V W _ (ret a).
Proof. by intros σ. Qed.

Lemma extends_bind {A B} (c : M V W A) (k : A → M V W B) :
  extends c → (∀ a, extends (k a)) → extends (x <- c ;; k x).
Proof.
  intros Hc Hk σ. specialize (Hc σ). unfold exec, bind in *.
  destruct (c σ) as [[a| |] σ1]; cbn in *; [|done..].
  etrans; [exact Hc|]. apply (Hk a σ1).
Qed.

Lemma extends_get_source this : @extends V W _ (get_source this).
Proof. intros σ. unfold exec, get_source. by destruct (objs σ !! this). Qed.

Lemma extends_call g x : @extends V W _ (call g x).
Proof. intros σ. unfold exec, call. by destruct (g x (world σ)). Qed.

Lemma extends_new_NullSafety x : @extends V W _ (new_NullSafety x).
Proof.
  intros σ. unfold exec. rewrite new_NullSafety_run. cbn.
  apply insert_subseteq, fresh_loc_unused.
Qed.

Lemma extends_source_is_nullish this : @extends V W _ (source_is_nullish this).
Proof.
  apply extends_bind; [apply extends_get_source|]. intros s.
  destruct (is_undefined s); [apply extends_ret|].
  apply extends_bind; [apply extends_get_source|]. intros; apply extends_ret.
Qed.

Lemma extends_next this g alt : @extends V W _ (next this g alt).
Proof.
  apply extends_bind; [apply extends_source_is_nullish|]. intros c.
  apply extends_bind; [|intros; apply extends_new_NullSafety].
  destruct c; [apply extends_get_source|].
  apply extends_bind; [apply extends_get_source|]. intros; apply extends_call.
Qed.

Lemma extends_nextWithAny this g alt : @extends V W _ (nextWithAny this g alt).
Proof.
  apply extends_bind; [|intros; apply extends_new_NullSafety].
  apply extends_bind; [apply extends_get_source|]. intros; apply extends_call.
Qed.

Lemma extends_resultAlty this x : @extends V W _ (resultAlty this x).
Proof.
  apply extends_bind; [apply extends_get_source|]. intros s.
  destruct (negb (is_null s)); [|apply extends_ret].
  apply extends_bind; [apply extends_get_source|]. intros s'.
  destruct (negb (is_undefined s')); [apply extends_get_source|].
  apply extends_ret.
Qed.

Lemma exec_op_extends (o : op V W) σ : objs σ ⊆ objs (exec_op o σ).
Proof.
  destruct o; cbn.
  - apply extends_new_NullSafety.
  - apply extends_next.
  - apply extends_nextWithAny.
  - apply extends_get_source.
  - apply extends_resultAlty.
Qed.

Lemma exec_ops_extends (os : list (op V W)) σ : objs σ ⊆ objs (exec_ops os σ).
Proof.
  revert σ. induction os as [|o os IH]; intros σ; [done|].
  cbn. etrans; [apply (exec_op_extends o)|]. apply IH.
Qed.

Lemma results_run n σ this m :
  objs σ !! this = Some m →
  results n this σ = (Return (replicate n m), σ).
Proof.
  intros Hthis. induction n as [|n IH]; [done|].
  cbn. unfold bind, result. by rewrite (get_source_run _ _ _ Hthis), IH.
Qed.
End Extends.

(** ** Chaining from an instance that holds no value *)

(** C1. On an instance that holds [undefined] or [null], [next] without
    [altResult] returns a new instance whose [result()] is that same marker,
    [undefined] for [undefined] and [null] for [null]; no getter invocation is
    recorded and the host state is untouched, whatever the getter is (also
    one that would throw). *)
Theorem C1_next_absent_short_circuit {V W} (σ : state V W) this m g :
  objs σ !! this = Some m →
  absent m = true →
  ∃ that σ',
    next this g None σ = (Return that, σ') ∧
    result that σ' = (Return m, σ') ∧
    trace σ' = trace σ ∧
    world σ' = world σ.
Proof.
  intros Hthis Hm.
  exists (fresh (dom (objs σ))), (allocated m σ).
  rewrite (next_run_absent _ _ _ _ _ Hthis Hm), new_NullSafety_run.
  rewrite (next_value_no_alt m None eq_refl).
  repeat split. apply result_allocated.
Qed.

Lemma C1_next_absent_short_circuit_witness :
  let σ : state nat nat := State {[ 1%positive := Null ]} 0 [] in
  let g : Getter nat nat := fun _ n => (Throw Undefined, S n) in
  objs σ !! 1%positive = Some Null ∧
  absent (@Null nat) = true ∧
  ∃ that σ',
    next 1%positive g None σ = (Return that, σ') ∧
    result that σ' = (Return Null, σ') ∧
    trace σ' = trace σ ∧
    world σ' = world σ.
Proof.
  intros σ g.
  split; [reflexivity|]. split; [reflexivity|].
  apply (C1_next_absent_short_circuit σ 1%positive Null g); reflexivity.
Defined.

(** ** Chaining from an instance that holds a value *)

(** C2. On an instance that holds a value [v], with a getter that returns
    [r] on [v]: [next] returns a new instance whose [result()] is [r] when
    [r] is neither [undefined] nor [null], with or without [altResult]; and
    is [altResult] when [r] is [undefined] or [null] and an [altResult]
    other than [undefined] was passed. *)
Theorem C2_next_present {V W} (σ : state V W) this v g alt r w :
  objs σ !! this = Some (Val v) →
  g (Val v) (world σ) = (Return r, w) →
  ∃ that σ',
    next this g alt σ = (Return that, σ') ∧
    (absent r = false → result that σ' = (Return r, σ')) ∧
    (∀ fb, absent r = true → alt = Some fb → is_undefined fb = false →
           result that σ' = (Return fb, σ')).
Proof.
  intros Hthis Hg.
  rewrite (next_run_present _ _ _ _ _ Hthis eq_refl).
  unfold bind. rewrite (call_run _ _ _ _ _ Hg), new_NullSafety_run.
  eexists _, _. split; [reflexivity|]. split.
  - intros Hr. rewrite (next_value_present _ _ Hr). apply result_allocated.
  - intros fb Hr -> Hfb. rewrite (next_value_alt _ _ Hr Hfb).
    apply result_allocated.
Qed.

Lemma C2_next_present_witness :
  let σ : state nat nat := State {[ 1%positive := Val 7 ]} 0 [] in
  let g : Getter nat nat := fun _ n => (Return Null, S n) in
  objs σ !! 1%positive = Some (Val 7) ∧
  g (Val 7) (world σ) = (Return Null, 1) ∧
  ∃ that σ',
    next 1%positive g (Some (Val 9)) σ = (Return that, σ') ∧
    (absent (@Null nat) = false → result that σ' = (Return Null, σ')) ∧
    (∀ fb, absent (@Null nat) = true → Some (Val 9) = Some fb →
           is_undefined fb = false → result that σ' = (Return fb, σ')).
Proof.
  intros σ g.
  split; [reflexivity|]. split; [reflexivity|].
  apply (C2_next_present σ 1%positive 7 g (Some (Val 9)) Null 1); reflexivity.
Defined.

(** ** Chaining that always calls the getter *)

(** C3. On any instance, holding a value or not, [nextWithAny] invokes the
    getter exactly once, on the content of [source] as it is: one entry, the
    held value, is added to the trace, and the host state is the one the
    getter leaves.  When the getter returns [r], the new instance holds [r],
    unless [r] is [undefined] or [null] and an [altResult] other than
    [undefined] was passed, in which case it holds [altResult]. *)
Theorem C3_nextWithAny_invokes_once {V W} (σ : state V W) this m g alt :
  objs σ !! this = Some m →
  trace (exec (nextWithAny this g alt) σ) = trace σ ++ [m] ∧
  world (exec (nextWithAny this g alt) σ) = snd (g m (world σ)) ∧
  ∀ r w, g m (world σ) = (Return r, w) →
    ∃ that σ',
      nextWithAny this g alt σ = (Return that, σ') ∧
      (absent r = false → result that σ' = (Return r, σ')) ∧
      (∀ fb, absent r = true → alt = Some fb → is_undefined fb = false →
             result that σ' = (Return fb, σ')) ∧
      (absent r = true → param alt = Undefined →
       result that σ' = (Return r, σ')).
Proof.
  intros Hthis.
  destruct (nextWithAny_exec σ this m g alt Hthis) as [Ht Hw].
  split; [exact Ht|]. split; [exact Hw|].
  intros r w Hg.
  rewrite (nextWithAny_run _ _ _ _ _ Hthis). unfold bind.
  rewrite (call_run _ _ _ _ _ Hg), new_NullSafety_run.
  eexists _, _. split; [reflexivity|].
  repeat split.
  - intros Hr. rewrite (next_value_present _ _ Hr). apply result_allocated.
  - intros fb Hr -> Hfb. rewrite (next_value_alt _ _ Hr Hfb).
    apply result_allocated.
  - intros Hr Halt. rewrite (next_value_no_alt _ _ Halt).
    apply result_allocated.
Qed.

Lemma C3_nextWithAny_invokes_once_witness :
  let σ : state nat nat := State {[ 1%positive := Undefined ]} 0 [] in
  let g : Getter nat nat := fun _ n => (Return Null, S n) in
  objs σ !! 1%positive = Some Undefined ∧
  g Undefined (world σ) = (Return Null, 1) ∧
  trace (exec (nextWithAny 1%positive g (Some (Val 9))) σ) = [Undefined] ∧
  world (exec (nextWithAny 1%positive g (Some (Val 9))) σ) = 1 ∧
  ∃ that σ',
    nextWithAny 1%positive g (Some (Val 9)) σ = (Return that, σ') ∧
    result that σ' = (Return (Val 9), σ').
Proof.
  intros σ g.
  split; [reflexivity|]. split; [reflexivity|].
  destruct (C3_nextWithAny_invokes_once σ 1%positive Undefined g
              (Some (Val 9)) eq_refl) as (Ht & Hw & Hr).
  split; [exact Ht|]. split; [exact Hw|].
  destruct (Hr Null 1 eq_refl) as (that & σ' & Hrun & _ & Hfb & _).
  exists that, σ'. split; [exact Hrun|].
  apply (Hfb (Val 9)); reflexivity.
Defined.

(** ** Terminal operations *)

(** C4. [resultAlty(altResult)] returns the held value when the instance
    holds one, and [altResult] when it holds [undefined] or [null]; the
    state is left as it was. *)
Theorem C4_resultAlty {V W} (σ : state V W) this m fb :
  objs σ !! this = Some m →
  resultAlty this fb σ = (Return (if absent m then fb else m), σ) ∧
  (∀ v, m = Val v → resultAlty this fb σ = (Return (Val v), σ)) ∧
  (m = Null ∨ m = Undefined → resultAlty this fb σ = (Return fb, σ)).
Proof.
  intros Hthis. rewrite (resultAlty_run _ _ _ _ Hthis).
  split; [done|]. split.
  - by intros v ->.
  - by intros [-> | ->].
Qed.

Lemma C4_resultAlty_witness :
  let σ : state nat unit := State {[ 1%positive := Null ]} tt [] in
  objs σ !! 1%positive = Some Null ∧
  resultAlty 1%positive (Val 5) σ = (Return (Val 5), σ).
Proof.
  intros σ. split; [reflexivity|].
  destruct (C4_resultAlty σ 1%positive Null (Val 5) eq_refl) as (_ & _ & H).
  apply H. by left.
Defined.

(** C5. For an instance of [NullSafety<T>] and an [altResult] of type [T],
    where the values of [T] are neither [null] nor [undefined],
    [resultAlty(altResult)] returns a value of [T], never [null] and never
    [undefined]. *)
Theorem C5_resultAlty_never_absent {V W} (T : V → Prop)
    (σ : state V W) this m (fb : V) :
  objs σ !! this = Some m →
  has_type T m →
  T fb →
  ∃ t, resultAlty this (Val fb) σ = (Return (Val t), σ) ∧
       T t ∧ absent (Val t) = false.
Proof.
  intros Hthis Hm Hfb. rewrite (resultAlty_run _ _ _ _ Hthis).
  destruct m as [| |v]; cbn; eauto.
Qed.

Lemma C5_resultAlty_never_absent_witness :
  let σ : state nat unit := State {[ 1%positive := Undefined ]} tt [] in
  let T : nat → Prop := fun n => n < 10 in
  objs σ !! 1%positive = Some Undefined ∧
  has_type T Undefined ∧
  T 5 ∧
  ∃ t, resultAlty 1%positive (Val 5) σ = (Return (Val t), σ) ∧
       T t ∧ absent (Val t) = false.
Proof.
  intros σ T.
  split; [reflexivity|]. split; [exact I|]. split; [unfold T; lia|].
  apply (C5_resultAlty_never_absent T σ 1%positive Undefined 5);
    [reflexivity | exact I | unfold T; lia].
Defined.

(** The type parameter can be instantiated with a type that admits [null]
    (as in [NullSafety<string | null>]); an [altResult] of [null] is then
    well typed, and [resultAlty] returns it on an instance that holds no
    value. *)
Lemma resultAlty_null_altResult {V W} (σ : state V W) this m :
  objs σ !! this = Some m →
  absent m = true →
  resultAlty this Null σ = (Return Null, σ).
Proof.
  intros Hthis Hm. by rewrite (resultAlty_run _ _ _ _ Hthis), Hm.
Qed.

(** [NullSafety.start(undefined).resultAlty('default')] is ['default']. *)
Example start_undefined_resultAlty {W} (w : W) :
  fst ((c <- start Undefined ;; resultAlty c (Val (JString "default")))
         (init w))
  = Return (Val (JString "default")).
Proof. vm_compute. reflexivity. Qed.

(** C6. [start(x).result()] is [x], for a value as well as for [null] and
    for [undefined]: the new instance holds exactly the argument. *)
Theorem C6_start_result {V W} (σ : state V W) (x : nullable V) :
  ∃ this σ',
    start x σ = (Return this, σ') ∧
    objs σ' !! this = Some x ∧
    result this σ' = (Return x, σ') ∧
    (this <- start x ;; result this) σ = (Return x, σ').
Proof.
  exists (fresh (dom (objs σ))), (allocated x σ).
  unfold start, bind. rewrite new_NullSafety_run.
  rewrite !result_allocated. split; [done|].
  split; [apply allocated_lookup_new | done].
Qed.

(** ** A scenario *)

(** C7. [start({a: null}).next(o => o.a).next(o => o.missingField,
    'fallback').result()] returns ['fallback'].  The first step yields
    [null]; the second step does not invoke its getter (which would throw on
    [null]): the only invocation recorded is that of the first getter, on the
    object; [altResult] is stored all the same. *)
Theorem C7_scenario_fallback {W} (w : W) :
  ∃ σ1 σ2,
    scenario_first_step (init w) = (Return Null, σ1) ∧
    scenario_fallback (init w) = (Return (Val (JString "fallback")), σ2) ∧
    trace σ2 = [Val (JObject [("a"%string, Null)])] ∧
    world σ2 = w ∧
    member "missingField" (@Null jsval) w = (Throw TypeError, w).
Proof.
  exists (exec scenario_first_step (init w)), (exec scenario_fallback (init w)).
  repeat split; vm_compute; reflexivity.
Qed.

(** ** Instances are never modified *)

Section NewInstance.
Context {V W : Type}.
Implicit Types (σ : state V W) (this that : loc) (g : Getter V W).
Implicit Types (m r x : nullable V) (alt : option (nullable V)).

(** [new NullSafety(x)], when it returns, returns the location it has just
    allocated, and an instance is there afterwards. *)
Lemma new_NullSafety_returns x σ that σ' :
  new_NullSafety x σ = (Return that, σ') →
  that = fresh (dom (objs σ)) ∧ ∃ y, objs σ' !! that = Some y.
Proof.
  rewrite new_NullSafety_run. intros [= <- <-].
  split; [done|]. exists x. apply allocated_lookup_new.
Qed.

(** The same for a step that calls the getter and then allocates. *)
Lemma step_returns σ g m alt that σ' :
  (r <- call g m ;; new_NullSafety (next_value r alt)) σ = (Return that, σ') →
  that = fresh (dom (objs σ)) ∧ ∃ y, objs σ' !! that = Some y.
Proof.
  unfold bind, call.
  destruct (g m (world σ)) as [[r| |] w0]; [|done..].
  exact (new_NullSafety_returns _ (State (objs σ) w0 (trace σ ++ [m])) _ _).
Qed.
End NewInstance.



(** ** When [altResult] counts as passed *)

(** C9. In [next] and in [nextWithAny], passing [undefined] as [altResult]
    is the same as leaving it out.  When the value obtained in a step (carried
    forward by [next], or returned by the getter) is [undefined] or [null],
    the new instance holds [altResult] exactly when [altResult] is not
    [undefined]; otherwise it holds the value obtained, so [undefined] never
    replaces a [null].  An [altResult] of [null] is stored as it is: the step
    then produces an instance that holds no value although an [altResult]
    was passed. *)
Theorem C9_altResult_passed_iff_not_undefined {V W} (σ : state V W)
    this m g :
  objs σ !! this = Some m →
  next this g (Some Undefined) σ = next this g None σ ∧
  nextWithAny this g (Some Undefined) σ = nextWithAny this g None σ ∧
  (absent m = true → ∀ alt, ∃ that σ',
     next this g alt σ = (Return that, σ') ∧
     result that σ' =
       (Return (if is_undefined (param alt) then m else param alt), σ')) ∧
  (∀ r w, g m (world σ) = (Return r, w) → absent r = true → ∀ alt,
     (∃ that σ',
        nextWithAny this g alt σ = (Return that, σ') ∧
        result that σ' =
          (Return (if is_undefined (param alt) then r else param alt), σ')) ∧
     (absent m = false → ∃ that σ',
        next this g alt σ = (Return that, σ') ∧
        result that σ' =
          (Return (if is_undefined (param alt) then r else param alt), σ'))) ∧
  (∀ r w, g m (world σ) = (Return r, w) → absent r = true → ∃ that σ',
     nextWithAny this g (Some Null) σ = (Return that, σ') ∧
     result that σ' = (Return Null, σ') ∧
     absent (@Null V) = true).
Proof.
  intros Hthis.
  assert (∀ (r : nullable V) alt, absent r = true →
            next_value r alt = if is_undefined (param alt) then r else param alt)
    as Hsubst.
  { intros r alt Hr. unfold next_value, use_alt. fold (absent r).
    rewrite Hr. by destruct (is_undefined (param alt)). }
  assert (∀ r w alt, g m (world σ) = (Return r, w) → absent r = true →
            ∃ that σ',
              (r <- call g m ;; new_NullSafety (next_value r alt)) σ
              = (Return that, σ') ∧
              result that σ' =
                (Return (if is_undefined (param alt) then r else param alt), σ'))
    as Hstep.
  { intros r w alt Hg Hr. unfold bind.
    rewrite (call_run _ _ _ _ _ Hg), new_NullSafety_run.
    eexists _, _. split; [reflexivity|].
    rewrite (Hsubst _ _ Hr). apply result_allocated. }
  split; [reflexivity|]. split; [reflexivity|]. split; [|split].
  - intros Hm alt.
    rewrite (next_run_absent _ _ _ _ _ Hthis Hm), new_NullSafety_run.
    eexists _, _. split; [reflexivity|].
    rewrite (Hsubst _ _ Hm). apply result_allocated.
  - intros r w Hg Hr alt. split.
    + rewrite (nextWithAny_run _ _ _ _ _ Hthis). by eapply Hstep.
    + intros Hm. rewrite (next_run_present _ _ _ _ _ Hthis Hm).
      by eapply Hstep.
  - intros r w Hg Hr.
    rewrite (nextWithAny_run _ _ _ _ _ Hthis).
    destruct (Hstep r w (Some Null) Hg Hr) as (that & σ' & H1 & H2).
    by exists that, σ'.
Qed.

Lemma C9_altResult_passed_iff_not_undefined_witness :
  let g : Getter nat nat := fun _ n => (Return Undefined, S n) in
  let σ : state nat nat := State {[ 1%positive := Val 7 ]} 0 [] in
  objs σ !! 1%positive = Some (Val 7) ∧
  g (Val 7) (world σ) = (Return Undefined, 1) ∧
  absent (@Undefined nat) = true ∧
  next 1%positive g (Some Undefined) σ = next 1%positive g None σ ∧
  ∃ that σ',
    nextWithAny 1%positive g (Some Null) σ = (Return that, σ') ∧
    result that σ' = (Return Null, σ').
Proof.
  intros g σ.
  split; [reflexivity|]. split; [reflexivity|]. split; [reflexivity|].
  destruct (C9_altResult_passed_iff_not_undefined σ 1%positive (Val 7) g
              eq_refl) as (H1 & _ & _ & _ & H5).
  split; [exact H1|].
  destruct (H5 Undefined 1 eq_refl eq_refl) as (that & σ' & Hrun & Hres & _).
  exists that, σ'. split; [exact Hrun | exact Hres].
Defined.

(** ** [next] and [nextWithAny] *)

(** C10. On an instance that holds a value, [next] and [nextWithAny] with
    the same getter and the same [altResult] do the same: same outcome, same
    new instance with the same held value, same invocation of the getter.
    They differ only on an instance that holds [undefined] or [null] (where
    they always differ, one invoking the getter and the other not). *)
Theorem C10_next_nextWithAny_agree_on_present {V W} (σ : state V W)
    this m g alt :
  objs σ !! this = Some m →
  (absent m = false → next this g alt σ = nextWithAny this g alt σ) ∧
  (next this g alt σ ≠ nextWithAny this g alt σ → absent m = true) ∧
  (absent m = true → next this g alt σ ≠ nextWithAny this g alt σ).
Proof.
  intros Hthis.
  assert (absent m = false → next this g alt σ = nextWithAny this g alt σ)
    as Hagree.
  { intros Hm. rewrite (next_run_present _ _ _ _ _ Hthis Hm).
    by rewrite (nextWithAny_run _ _ _ _ _ Hthis). }
  split; [exact Hagree|]. split.
  - intros Hne. destruct (absent m); [done|]. by destruct Hne; apply Hagree.
  - intros Hm E.
    destruct (nextWithAny_exec σ this m g alt Hthis) as [Ht _].
    unfold exec in Ht. rewrite <- E in Ht.
    rewrite (next_run_absent _ _ _ _ _ Hthis Hm), new_NullSafety_run in Ht.
    cbn in Ht. apply (f_equal length) in Ht.
    rewrite length_app in Ht. cbn in Ht. lia.
Qed.

Lemma C10_next_nextWithAny_agree_on_present_witness :
  let g : Getter nat nat := fun _ n => (Return Null, S n) in
  let σ : state nat nat := State {[ 1%positive := Val 7 ]} 0 [] in
  objs σ !! 1%positive = Some (Val 7) ∧
  absent (Val 7) = false ∧
  next 1%positive g (Some (Val 2)) σ = nextWithAny 1%positive g (Some (Val 2)) σ.
Proof.
  intros g σ. split; [reflexivity|]. split; [reflexivity|].
  apply (C10_next_nextWithAny_agree_on_present σ 1%positive (Val 7) g
           (Some (Val 2)) eq_refl).
  reflexivity.
Defined.

(** * Further properties of the class *)

Section More.
Context {V W : Type}.
Implicit Types (σ : state V W) (this that : loc) (g : Getter V W).
Implicit Types (m r x : nullable V) (alt : option (nullable V)).

(** A method applied to a location that holds no instance leaves the
    model, without effect. *)
Lemma next_unallocated σ this g alt :
  objs σ !! this = None → next this g alt σ = (Stuck, σ).
Proof.
  intros H. unfold next, source_is_nullish, bind, get_source. by rewrite H.
Qed.

Lemma nextWithAny_unallocated σ this g alt :
  objs σ !! this = None → nextWithAny this g alt σ = (Stuck, σ).
Proof.
  intros H. unfold nextWithAny, bind, get_source. by rewrite H.
Qed.

Lemma bind_run {A B} (c : M V W A) (k : A → M V W B) σ a σ1 :
  c σ = (Return a, σ1) → (y <- c ;; k y) σ = k a σ1.
Proof. intros H. unfold bind. by rewrite H. Qed.

Lemma bind_throw {A B} (c : M V W A) (k : A → M V W B) σ e σ1 :
  c σ = (Throw e, σ1) → (y <- c ;; k y) σ = (Throw e, σ1).
Proof. intros H. unfold bind. by rewrite H. Qed.

Lemma bind_stuck {A B} (c : M V W A) (k : A → M V W B) σ σ1 :
  c σ = (Stuck, σ1) → (y <- c ;; k y) σ = (Stuck, σ1).
Proof. intros H. unfold bind. by rewrite H. Qed.

(** [next] without [altResult]: the three ways it can end. *)
Lemma next_None_absent σ this m g :
  objs σ !! this = Some m → absent m = true →
  next this g None σ = (Return (fresh (dom (objs σ))), allocated m σ).
Proof.
  intros Hthis Hm.
  rewrite (next_run_absent _ _ _ _ _ Hthis Hm), new_NullSafety_run.
  by rewrite (next_value_no_alt m None eq_refl).
Qed.

Lemma next_None_present σ this m g (o : outcome V (nullable V)) w :
  objs σ !! this = Some m → absent m = false →
  g m (world σ) = (o, w) →
  next this g None σ
  = match o with
    | Return r =>
        (Return (fresh (dom (objs σ))),
         allocated r (State (objs σ) w (trace σ ++ [m])))
    | Throw e => (Throw e, State (objs σ) w (trace σ ++ [m]))
    | Stuck => (Stuck, State (objs σ) w (trace σ ++ [m]))
    end.
Proof.
  intros Hthis Hm Hg.
  rewrite (next_run_present _ _ _ _ _ Hthis Hm). unfold bind.
  rewrite (call_run _ _ _ _ _ Hg). destruct o as [r| |]; [|done..].
  by rewrite new_NullSafety_run, (next_value_no_alt r None eq_refl).
Qed.

(** One step from a value, once the getter has returned. *)
Lemma step_run σ g m r w alt :
  g m (world σ) = (Return r, w) →
  (r' <- call g m ;; new_NullSafety (next_value r' alt)) σ
  = (Return (fresh (dom (objs σ))),
     allocated (next_value r alt) (State (objs σ) w (trace σ ++ [m]))).
Proof.
  intros Hg. unfold bind.
  by rewrite (call_run _ _ _ _ _ Hg), new_NullSafety_run.
Qed.

Lemma step_value_next_value (f : nullable V → nullable V) alt x :
  step_value f alt x = next_value (if absent x then x else f x) alt.
Proof.
  unfold step_value, next_value, use_alt.
  destruct x as [| |v]; cbn;
    repeat match goal with
           | |- context [match ?t with _ => _ end] => destruct t; cbn
           end; done.
Qed.
End More.

(** ** A getter that throws *)

(** X1. When the getter throws on the held value, [next] throws the same
    value: no instance is allocated, the store is as before, and
    [altResult] is not used in place of the missing outcome.  The getter was
    invoked once, and the host state is the one it left. *)
Theorem X1_next_getter_throws {V W} (σ : state V W) this v g alt e w :
  objs σ !! this = Some (Val v) →
  g (Val v) (world σ) = (Throw e, w) →
  next this g alt σ = (Throw e, State (objs σ) w (trace σ ++ [Val v])).
Proof.
  intros Hthis Hg.
  rewrite (next_run_present _ _ _ _ _ Hthis eq_refl). unfold bind.
  by rewrite (call_run _ _ _ _ _ Hg).
Qed.

Lemma X1_next_getter_throws_witness :
  let g : Getter nat nat := fun _ n => (Throw (Val 4), S n) in
  let σ : state nat nat := State {[ 1%positive := Val 7 ]} 0 [] in
  objs σ !! 1%positive = Some (Val 7) ∧
  g (Val 7) (world σ) = (Throw (Val 4), 1) ∧
  next 1%positive g (Some (Val 9)) σ
  = (Throw (Val 4), State {[ 1%positive := Val 7 ]} 1 [Val 7]).
Proof.
  intros g σ. split; [reflexivity|]. split; [reflexivity|].
  apply (X1_next_getter_throws σ 1%positive 7 g (Some (Val 9)) (Val 4) 1);
    reflexivity.
Defined.

(** X2. When the getter throws on the content of [source], whatever it is
    (also [null] or [undefined]), [nextWithAny] throws the same value; no
    instance is allocated and [altResult] is not used. *)
Theorem X2_nextWithAny_getter_throws {V W} (σ : state V W)
    this m g alt e w :
  objs σ !! this = Some m →
  g m (world σ) = (Throw e, w) →
  nextWithAny this g alt σ = (Throw e, State (objs σ) w (trace σ ++ [m])).
Proof.
  intros Hthis Hg.
  rewrite (nextWithAny_run _ _ _ _ _ Hthis). unfold bind.
  by rewrite (call_run _ _ _ _ _ Hg).
Qed.

Lemma X2_nextWithAny_getter_throws_witness :
  let g : Getter jsval unit := member "a" in
  let σ : state jsval unit := State {[ 1%positive := Null ]} tt [] in
  objs σ !! 1%positive = Some Null ∧
  g Null (world σ) = (Throw TypeError, tt) ∧
  nextWithAny 1%positive g (Some (Val (JString "x"))) σ
  = (Throw TypeError, State {[ 1%positive := Null ]} tt [Null]).
Proof.
  intros g σ. split; [reflexivity|]. split; [reflexivity|].
  apply (X2_nextWithAny_getter_throws σ 1%positive Null g
           (Some (Val (JString "x"))) TypeError tt); reflexivity.
Defined.

(** ** What [next] passes to its getter *)

(** X3. In any state and whatever the outcome, [next] invokes its getter
    at most once, and only on a held value that is neither [null] nor
    [undefined]: the trace is unchanged, or has grown by that value. *)
Theorem X3_next_getter_argument {V W} (σ : state V W) this g alt :
  trace (exec (next this g alt) σ) = trace σ ∨
  ∃ v, objs σ !! this = Some (Val v) ∧
       trace (exec (next this g alt) σ) = trace σ ++ [Val v].
Proof.
  unfold exec. destruct (objs σ !! this) as [m|] eqn:Hthis.
  - destruct (absent m) eqn:Hm.
    + left. by rewrite (next_run_absent _ _ _ _ _ Hthis Hm), new_NullSafety_run.
    + right. destruct m as [| |v]; [done..|]. exists v. split; [done|].
      rewrite (next_run_present _ _ _ _ _ Hthis Hm). unfold bind.
      destruct (g (Val v) (world σ)) as [o w] eqn:Hg.
      rewrite (call_run _ _ _ _ _ Hg).
      by destruct o; rewrite ?new_NullSafety_run.
  - left. by rewrite next_unallocated.
Qed.

(** ** A step with an [altResult] that is a value *)

(** X4. When [next] or [nextWithAny] is given an [altResult] that is
    neither [null] nor [undefined] and returns, the instance it returns
    holds a value: neither [null] nor [undefined]. *)
Theorem X4_step_with_value_altResult_present {V W} (σ : state V W)
    this g (fb : V) that σ' :
  next this g (Some (Val fb)) σ = (Return that, σ') ∨
  nextWithAny this g (Some (Val fb)) σ = (Return that, σ') →
  ∃ v, result that σ' = (Return (Val v), σ').
Proof.
  assert (∀ r, ∃ v, next_value r (Some (Val fb)) = Val v) as Hval.
  { intros [| |v]; cbn; eauto. }
  assert (∀ m σ0,
            (r' <- call g m ;; new_NullSafety (next_value r' (Some (Val fb)))) σ0
            = (Return that, σ') →
            ∃ v, result that σ' = (Return (Val v), σ')) as Hstep.
  { intros m σ0. unfold bind, call.
    destruct (g m (world σ0)) as [[r| |] w]; [|done..].
    rewrite new_NullSafety_run. intros [= <- <-].
    destruct (Hval r) as [v ->]. exists v.
    exact (result_allocated _ (State _ _ _)). }
  destruct (objs σ !! this) as [m|] eqn:Hthis.
  - intros [Hrun | Hrun].
    + destruct (absent m) eqn:Hm.
      * rewrite (next_run_absent _ _ _ _ _ Hthis Hm), new_NullSafety_run in Hrun.
        injection Hrun as <- <-.
        destruct (Hval m) as [v ->]. exists v. apply result_allocated.
      * rewrite (next_run_present _ _ _ _ _ Hthis Hm) in Hrun.
        by eapply Hstep.
    + rewrite (nextWithAny_run _ _ _ _ _ Hthis) in Hrun. by eapply Hstep.
  - rewrite next_unallocated, nextWithAny_unallocated by done.
    by intros [? | ?].
Qed.

Lemma X4_step_with_value_altResult_present_witness :
  let g : Getter nat nat := fun _ n => (Return Null, S n) in
  let σ : state nat nat := State {[ 1%positive := Val 7 ]} 0 [] in
  let σ' : state nat nat :=
    State (<[ 2%positive := Val 9 ]> {[ 1%positive := Val 7 ]}) 1 [Val 7] in
  next 1%positive g (Some (Val 9)) σ = (Return 2%positive, σ') ∧
  ∃ v, result 2%positive σ' = (Return (Val v), σ').
Proof.
  intros g σ σ'.
  assert (next 1%positive g (Some (Val 9)) σ = (Return 2%positive, σ')) as H
    by (vm_compute; reflexivity).
  split; [exact H|].
  apply (X4_step_with_value_altResult_present σ 1%positive g 9 2%positive σ').
  left. exact H.
Defined.

(** ** Chains *)

Section Chains.
Context {V W : Type}.
Implicit Types (σ : state V W) (this that : loc) (g : Getter V W).
Implicit Types (m r x : nullable V) (alt : option (nullable V)).

(** A chain of getters without effects, from an instance that holds [x]. *)
Lemma chain_pure_run steps σ this x :
  objs σ !! this = Some x →
  ∃ that σ',
    chain this (pure_steps steps) σ = (Return that, σ') ∧
    objs σ' !! that = Some (chain_value steps x) ∧
    world σ' = world σ.
Proof.
  revert σ this x. induction steps as [|[f alt] steps IH]; intros σ this x Hthis.
  - by exists this, σ.
  - cbn [pure_steps map chain fst snd chain_value]. unfold bind at 1.
    rewrite step_value_next_value.
    destruct (absent x) eqn:Hx.
    + rewrite (next_run_absent _ _ _ _ _ Hthis Hx), new_NullSafety_run.
      exact (IH (allocated _ σ) _ _ (allocated_lookup_new _ σ)).
    + rewrite (next_run_present _ _ _ _ _ Hthis Hx).
      rewrite (step_run σ (pure_getter f) x (f x) (world σ) alt eq_refl).
      set (σ1 := State (objs σ) (world σ) (trace σ ++ [x])).
      exact (IH (allocated _ σ1) _ _ (allocated_lookup_new _ σ1)).
Qed.

(** [c.next(g).result()], without [altResult]: what it returns and the
    host state it leaves. *)
Lemma next_result_run σ this m g :
  objs σ !! this = Some m →
  ((c <- next this g None ;; result c) σ).1
  = (if absent m then Return m else (g m (world σ)).1) ∧
  world ((c <- next this g None ;; result c) σ).2
  = (if absent m then world σ else (g m (world σ)).2).
Proof.
  intros Hthis. destruct (absent m) eqn:Hm.
  - rewrite (bind_run _ _ _ _ _ (next_None_absent _ _ _ g Hthis Hm)).
    by rewrite result_allocated.
  - destruct (g m (world σ)) as [o w] eqn:Hg.
    pose proof (next_None_present _ _ _ _ _ _ Hthis Hm Hg) as Hrun.
    destruct o as [r| |].
    + rewrite (bind_run _ _ _ _ _ Hrun).
      pose proof (result_allocated r (State (objs σ) w (trace σ ++ [m])))
        as Hres.
      cbn [objs] in Hres. by rewrite Hres.
    + by rewrite (bind_throw _ _ _ _ _ Hrun).
    + by rewrite (bind_stuck _ _ _ _ Hrun).
Qed.
End Chains.

(** X5. A chain of [next] calls without [altResult], from an instance that
    holds [undefined] or [null], returns an instance that holds that same
    marker, however long the chain is; no getter of the chain is invoked and
    the host state is untouched. *)
Theorem X5_chain_absent_short_circuit {V W}
    (steps : list (Getter V W * option (nullable V))) (σ : state V W) this m :
  objs σ !! this = Some m →
  absent m = true →
  Forall (fun s => param s.2 = Undefined) steps →
  ∃ that σ',
    chain this steps σ = (Return that, σ') ∧
    result that σ' = (Return m, σ') ∧
    trace σ' = trace σ ∧
    world σ' = world σ.
Proof.
  intros Hthis Hm Hsteps. revert σ this Hthis.
  induction Hsteps as [|[g alt] steps Halt _ IH]; intros σ this Hthis.
  - exists this, σ. repeat split. by apply get_source_run.
  - cbn [chain]. unfold bind at 1.
    rewrite (next_run_absent _ _ _ _ _ Hthis Hm), new_NullSafety_run.
    rewrite (next_value_no_alt m alt Halt).
    exact (IH (allocated m σ) _ (allocated_lookup_new m σ)).
Qed.

Lemma X5_chain_absent_short_circuit_witness :
  let σ : state jsval unit := State {[ 1%positive := Undefined ]} tt [] in
  let steps : list (Getter jsval unit * option (nullable jsval)) :=
    [(member "a", None); (member "b", Some Undefined); (member "c", None)] in
  objs σ !! 1%positive = Some Undefined ∧
  absent (@Undefined jsval) = true ∧
  Forall (fun s => param s.2 = Undefined) steps ∧
  ∃ that σ',
    chain 1%positive steps σ = (Return that, σ') ∧
    result that σ' = (Return Undefined, σ') ∧
    trace σ' = trace σ ∧
    world σ' = world σ.
Proof.
  intros σ steps.
  assert (Forall (fun s => param s.2 = Undefined) steps) as Hsteps
    by (repeat constructor).
  split; [reflexivity|]. split; [reflexivity|]. split; [exact Hsteps|].
  exact (X5_chain_absent_short_circuit steps σ 1%positive Undefined
           eq_refl eq_refl Hsteps).
Defined.

(** X6. For getters without effects, [start(x).next(f1, a1)...next(fn, an)
    .result()] returns what the steps compute on values alone
    ([chain_value]): the instances allocated on the way do not show in the
    outcome, and the host state is untouched. *)
Theorem X6_chain_pure_refines {V W}
    (steps : list ((nullable V → nullable V) * option (nullable V)))
    (σ : state V W) (x : nullable V) :
  ∃ σ',
    (c <- start x ;; c' <- chain c (pure_steps steps) ;; result c') σ
    = (Return (chain_value steps x), σ') ∧
    world σ' = world σ.
Proof.
  unfold start, bind at 1. rewrite new_NullSafety_run.
  destruct (chain_pure_run steps (allocated x σ) _ x
              (allocated_lookup_new x σ)) as (that & σ' & Hrun & Hthat & Hw).
  exists σ'. unfold bind. rewrite Hrun.
  split; [by apply get_source_run | exact Hw].
Qed.

(** X7. Two [next] steps in a row, without [altResult], return and leave in
    the host what a single [next] step does with the getter that applies [f]
    and then, when the outcome is neither [null] nor [undefined], [g]: also
    when [f] or [g] throws. *)
Theorem X7_next_next_and_then {V W} (σ : state V W) this m f g :
  objs σ !! this = Some m →
  ((c1 <- next this f None ;; c2 <- next c1 g None ;; result c2) σ).1
  = ((c <- next this (and_then f g) None ;; result c) σ).1 ∧
  world ((c1 <- next this f None ;; c2 <- next c1 g None ;; result c2) σ).2
  = world ((c <- next this (and_then f g) None ;; result c) σ).2.
Proof.
  intros Hthis.
  destruct (next_result_run σ this m (and_then f g) Hthis) as [-> ->].
  destruct (absent m) eqn:Hm.
  - rewrite (bind_run _ _ _ _ _ (next_None_absent _ _ _ f Hthis Hm)).
    destruct (next_result_run (allocated m σ) _ m g
                (allocated_lookup_new m σ)) as [-> ->].
    by rewrite Hm.
  - unfold and_then. fold (absent (V:=V)).
    destruct (f m (world σ)) as [o w] eqn:Hf.
    pose proof (next_None_present _ _ _ _ _ _ Hthis Hm Hf) as Hrun.
    destruct o as [r| |].
    + rewrite (bind_run _ _ _ _ _ Hrun).
      pose proof (next_result_run
                    (allocated r (State (objs σ) w (trace σ ++ [m]))) _ r g
                    (allocated_lookup_new r (State _ _ _))) as Hnext.
      cbn [objs world allocated] in Hnext. cbn [allocated].
      destruct Hnext as [-> ->].
      unfold absent. by destruct (is_undefined r || is_null r).
    + by rewrite (bind_throw _ _ _ _ _ Hrun).
    + by rewrite (bind_stuck _ _ _ _ Hrun).
Qed.

Lemma X7_next_next_and_then_witness :
  let f : Getter jsval unit := member "a" in
  let g : Getter jsval unit := member "b" in
  let o : nullable jsval :=
    Val (JObject [("a"%string,
                   Val (JObject [("b"%string, Val (JString "x"))]))]) in
  let σ : state jsval unit := State {[ 1%positive := o ]} tt [] in
  objs σ !! 1%positive = Some o ∧
  ((c1 <- next 1%positive f None ;; c2 <- next c1 g None ;; result c2) σ).1
  = ((c <- next 1%positive (and_then f g) None ;; result c) σ).1.
Proof.
  intros f g o σ. split; [reflexivity|].
  exact (proj1 (X7_next_next_and_then σ 1%positive o f g eq_refl)).
Defined.

(** ** The identity getter and [resultAlty] *)

Section Identity.
Context {V W : Type}.
Implicit Types (σ : state V W) (this that : loc).
Implicit Types (m r x : nullable V) (alt : option (nullable V)).

Lemma result_allocated_at x (h : gmap loc (nullable V)) (w : W) t :
  result (fresh (dom h)) (allocated x (State h w t))
  = (Return x, allocated x (State h w t)).
Proof. exact (result_allocated x (State h w t)). Qed.

Lemma next_identity_run σ this m alt :
  objs σ !! this = Some m →
  ((c <- next this identity alt ;; result c) σ).1
  = Return (next_value m alt).
Proof.
  intros Hthis. destruct (absent m) eqn:Hm.
  - rewrite (bind_run _ _ σ _ _
               (eq_trans (next_run_absent _ _ _ identity alt Hthis Hm)
                         (new_NullSafety_run _ _))).
    by rewrite result_allocated.
  - rewrite (bind_run _ _ σ _ _
               (eq_trans (next_run_present _ _ _ identity alt Hthis Hm)
                         (step_run σ identity m m (world σ) alt eq_refl))).
    by rewrite result_allocated_at.
Qed.

Lemma nextWithAny_identity_run σ this m alt :
  objs σ !! this = Some m →
  ((c <- nextWithAny this identity alt ;; result c) σ).1
  = Return (next_value m alt).
Proof.
  intros Hthis.
  rewrite (bind_run _ _ σ _ _
             (eq_trans (nextWithAny_run _ _ _ identity alt Hthis)
                       (step_run σ identity m m (world σ) alt eq_refl))).
  by rewrite result_allocated_at.
Qed.
End Identity.

(** X8. With the getter [o => o]: without [altResult], [next] and
    [nextWithAny] return an instance whose [result()] is the receiver's
    [result()], value or marker; with an [altResult] other than [undefined],
    the [result()] of the new instance is the receiver's
    [resultAlty(altResult)]. *)
Theorem X8_identity_step {V W} (σ : state V W) this m fb :
  objs σ !! this = Some m →
  ((c <- next this identity None ;; result c) σ).1 = (result this σ).1 ∧
  ((c <- nextWithAny this identity None ;; result c) σ).1
  = (result this σ).1 ∧
  (is_undefined fb = false →
   ((c <- next this identity (Some fb) ;; result c) σ).1
   = (resultAlty this fb σ).1 ∧
   ((c <- nextWithAny this identity (Some fb) ;; result c) σ).1
   = (resultAlty this fb σ).1).
Proof.
  intros Hthis.
  rewrite !(next_identity_run _ _ _ _ Hthis).
  rewrite !(nextWithAny_identity_run _ _ _ _ Hthis).
  rewrite (resultAlty_run _ _ _ _ Hthis).
  unfold result. rewrite (get_source_run _ _ _ Hthis).
  rewrite (next_value_no_alt m None eq_refl).
  split; [done|]. split; [done|]. intros Hfb.
  destruct (absent m) eqn:Hm.
  - by rewrite (next_value_alt _ _ Hm Hfb).
  - by rewrite (next_value_present _ _ Hm).
Qed.

Lemma X8_identity_step_witness :
  let σ : state nat unit := State {[ 1%positive := Null ]} tt [] in
  objs σ !! 1%positive = Some Null ∧
  is_undefined (Val 5) = false ∧
  ((c <- next 1%positive identity None ;; result c) σ).1
  = (result 1%positive σ).1 ∧
  ((c <- next 1%positive identity (Some (Val 5)) ;; result c) σ).1
  = (resultAlty 1%positive (Val 5) σ).1.
Proof.
  intros σ. split; [reflexivity|]. split; [reflexivity|].
  destruct (X8_identity_step σ 1%positive Null (Val 5) eq_refl)
    as (H1 & _ & H3).
  split; [exact H1|]. exact (proj1 (H3 eq_refl)).
Defined.

(** ** A chain goes on from an [altResult] *)

(** X9. From an instance that holds [undefined] or [null], a [next] step
    with an [altResult] that is a value, followed by a [next] step: the first
    getter is not invoked, the second one is invoked once, on [altResult],
    and the last instance holds what it returns. *)
Theorem X9_chain_resumes_from_altResult {V W} (σ : state V W)
    this m g1 g2 (fb : V) r w :
  objs σ !! this = Some m →
  absent m = true →
  g2 (Val fb) (world σ) = (Return r, w) →
  ∃ that σ',
    chain this [(g1, Some (Val fb)); (g2, None)] σ = (Return that, σ') ∧
    result that σ' = (Return r, σ') ∧
    trace σ' = trace σ ++ [Val fb] ∧
    world σ' = w.
Proof.
  intros Hthis Hm Hg. cbn [chain].
  rewrite (bind_run _ _ σ _ _
             (eq_trans (next_run_absent _ _ _ g1 (Some (Val fb)) Hthis Hm)
                       (new_NullSafety_run _ _))).
  rewrite (next_value_alt m (Val fb) Hm eq_refl).
  pose proof (next_None_present (allocated (Val fb) σ) _ (Val fb) g2 _ _
                (allocated_lookup_new _ σ) eq_refl Hg) as Hrun.
  rewrite (bind_run _ _ _ _ _ Hrun). unfold ret.
  eexists _, _. split; [reflexivity|].
  split; [apply result_allocated_at|]. done.
Qed.

Lemma X9_chain_resumes_from_altResult_witness :
  let g1 : Getter jsval unit := member "a" in
  let g2 : Getter jsval unit := member "b" in
  let fb : jsval := JObject [("b"%string, Val (JString "x"))] in
  let σ : state jsval unit := State {[ 1%positive := Null ]} tt [] in
  objs σ !! 1%positive = Some Null ∧
  absent (@Null jsval) = true ∧
  g2 (Val fb) (world σ) = (Return (Val (JString "x")), tt) ∧
  ∃ that σ',
    chain 1%positive [(g1, Some (Val fb)); (g2, None)] σ = (Return that, σ') ∧
    result that σ' = (Return (Val (JString "x")), σ') ∧
    trace σ' = trace σ ++ [Val fb] ∧
    world σ' = tt.
Proof.
  intros g1 g2 fb σ.
  split; [reflexivity|]. split; [reflexivity|]. split; [reflexivity|].
  exact (X9_chain_resumes_from_altResult σ 1%positive Null g1 g2 fb
           (Val (JString "x")) tt eq_refl eq_refl eq_refl).
Defined.
